(** * Column mapper of tape: a shallow embedding and its properties

    Source: [src/tape/utils/column_mapper/column_mapper.py], the classes
    [ColumnMapper] and [ZTFColumnMapper].

    Python objects are mutable and have identity, and several properties
    speak about "the same instance" or "every other instance", so objects
    live in a store indexed by references.  Methods are computations in a
    small state-and-exception monad over that store. *)

From stdpp Require Import gmap strings list fin_maps.

Open Scope string_scope.

(** ** Values, exceptions, objects *)

(** A value stored for a role: Python's [None] or a [str]. *)
Abbreviation value := (option string).

(** A Python [dict] from [str] keys to values.  A key may be present and
    hold [None]: that is [Some None], while a missing key is [None]. *)
Abbreviation dict := (gmap string value).

(** The exceptions the two classes can raise.  [KeyError] is what
    [self.map[key]] raises on a missing key. *)
Inductive exn : Type :=
| ValueError (msg : string)
| NotImplementedError
| KeyError (key : string).

(** The two classes of the module. *)
Inductive cls : Type :=
| ColumnMapper
| ZTFColumnMapper.

(** [Column = namedtuple("Column", ["name", "is_required"])]. *)
Record Column : Type := MkColumn { name : string; is_required : bool }.

(** The attributes [__init__] gives an instance, with its class. *)
Record instance : Type := MkInstance {
  class_of : cls;
  map : dict;
  required : list Column;
  known_maps : gmap string cls
}.

(** References to objects, and the store. *)
Abbreviation ref := nat.
Abbreviation store := (gmap nat instance).

(** ** The monad: a store threaded through, exceptions keep the store.

    [Stuck] has no Python counterpart: it is the model's answer to a
    reference that points at no object, which no operation ever returns. *)
Inductive outcome (A : Type) : Type :=
| Ret (a : A)
| Raise (e : exn)
| Stuck.
Arguments Ret {A} a.
Arguments Raise {A} e.
Arguments Stuck {A}.

Definition M (A : Type) : Type := store -> outcome A * store.

Definition ret {A : Type} (a : A) : M A := fun h => (Ret a, h).

Definition raise {A : Type} (e : exn) : M A := fun h => (Raise e, h).

Definition bind {A B : Type} (m : M A) (k : A -> M B) : M B :=
  fun h =>
    match m h with
    | (Ret a, h') => k a h'
    | (Raise e, h') => (Raise e, h')
    | (Stuck, h') => (Stuck, h')
    end.

Notation "'let*' x ':=' m 'in' k" := (bind m (fun x => k))
  (at level 10, x name, m at level 100, k at level 200).
Notation "m ';;' k" := (bind m (fun _ => k))
  (at level 100, k at level 200, right associativity).

(** Reading the object behind a reference. *)
Definition get_obj (l : ref) : M instance :=
  fun h =>
    match h !! l with
    | Some o => (Ret o, h)
    | None => (Stuck, h)
    end.

(** Creating an object: a reference not in use yet. *)
Definition alloc (o : instance) : M ref :=
  fun h => let l := fresh (dom h) in (Ret l, <[l := o]> h).

Definition with_map (o : instance) (m : dict) : instance :=
  {| class_of := class_of o; map := m;
     required := required o; known_maps := known_maps o |}.

(** [self.map = m]: the attribute is bound to a new dict. *)
Definition set_map (self : ref) (m : dict) : M unit :=
  fun h =>
    match h !! self with
    | Some o => (Ret tt, <[self := with_map o m]> h)
    | None => (Stuck, h)
    end.

(** [self.map[key] = v]: the dict of [self] is updated in place.  No
    operation shares one dict between two instances, so the dict is kept
    inside its instance. *)
Definition setitem (self : ref) (key : string) (v : value) : M unit :=
  let* o := get_obj self in set_map self (<[key := v]> (map o)).

(** [for x in xs: body(x)]. *)
Fixpoint for_each {A : Type} (body : A -> M unit) (xs : list A) : M unit :=
  match xs with
  | [] => ret tt
  | x :: rest => body x;; for_each body rest
  end.

(** ** ColumnMapper *)

(** The five keys, in the order [__init__] writes them. *)
Definition role_names : list string :=
  ["id_col"; "time_col"; "flux_col"; "err_col"; "band_col"].

(** [self.known_maps = {"ZTF": ZTFColumnMapper}]. *)
Definition default_known_maps : gmap string cls :=
  {["ZTF" := ZTFColumnMapper]}.

(** The attributes set by [ColumnMapper.__init__], which
    [ZTFColumnMapper] inherits. *)
Definition init (c : cls)
    (id_col time_col flux_col err_col band_col : value) : instance :=
  {| class_of := c;
     map := list_to_map
       [("id_col", id_col); ("time_col", time_col); ("flux_col", flux_col);
        ("err_col", err_col); ("band_col", band_col)];
     required :=
       [MkColumn "id_col" true; MkColumn "time_col" true;
        MkColumn "flux_col" true; MkColumn "err_col" true;
        MkColumn "band_col" true];
     known_maps := default_known_maps |}.

(** The constructor call [c(id_col=..., ...)]. *)
Definition new (c : cls)
    (id_col time_col flux_col err_col band_col : value) : M ref :=
  alloc (init c id_col time_col flux_col err_col band_col).

(** The dict literal of [ZTFColumnMapper._set_known_map]. *)
Definition ztf_map : dict :=
  list_to_map
    [("id_col", Some "ps1_objid"); ("time_col", Some "midPointTai");
     ("flux_col", Some "psFlux"); ("err_col", Some "psFluxErr");
     ("band_col", Some "filterName")].

(** [_set_known_map], dispatched on the class of [self]: the base class
    raises, the ZTF class rebinds [self.map] and returns [self]. *)
Definition _set_known_map (self : ref) : M ref :=
  let* o := get_obj self in
  match class_of o with
  | ColumnMapper => raise NotImplementedError
  | ZTFColumnMapper => set_map self ztf_map;; ret self
  end.

(** The static method [map_id] of each class. *)
Definition map_id (c : cls) : value :=
  match c with
  | ColumnMapper => None
  | ZTFColumnMapper => Some "ZTF"
  end.

(** The double quote character, for the message below. *)
Definition dquote : string := String (Ascii.ascii_of_nat 34) EmptyString.

(** [f'Unknown Mapping: "{map_id}"']. *)
Definition unknown_mapping_msg (map_id : string) : string :=
  "Unknown Mapping: " ++ dquote ++ map_id ++ dquote.

Definition use_known_map (self : ref) (map_id : string) : M ref :=
  let* o := get_obj self in
  match known_maps o !! map_id with
  | Some c =>
      let* fresh_obj := new c None None None None None in
      _set_known_map fresh_obj
  | None => raise (ValueError (unknown_mapping_msg map_id))
  end.

(** What [is_ready] returns: a [bool], or the tuple [(bool, list)]. *)
Inductive ready_result : Type :=
| ReadyBool (ready : bool)
| ReadyPair (ready : bool) (needed : list string).

(** [[col.name for col in self.required if col.is_required]]. *)
Definition required_keys (o : instance) : list string :=
  name <$> filter (fun col => is_required col = true) (required o).

(** The loop of [is_ready] over the required keys, with its two
    accumulators [ready] and [needed]. *)
Fixpoint check_keys (m : dict) (keys : list string)
    (ready : bool) (needed : list string) : outcome (bool * list string) :=
  match keys with
  | [] => Ret (ready, needed)
  | key :: rest =>
      match m !! key with
      | None => Raise (KeyError key)
      | Some None => check_keys m rest false (needed ++ [key])
      | Some (Some _) => check_keys m rest ready needed
      end
  end.

Definition is_ready (self : ref) (show_needed : bool) : M ready_result :=
  let* o := get_obj self in
  let* r := (fun h => (check_keys (map o) (required_keys o) true [], h)) in
  if show_needed then ret (ReadyPair r.1 r.2) else ret (ReadyBool r.1).

(** One iteration of the loop of [assign]. *)
Definition assign_item (self : ref) (item : string * value) : M unit :=
  match item.2 with
  | Some v => setitem self item.1 (Some v)
  | None => ret tt
  end.

Definition assign (self : ref)
    (id_col time_col flux_col err_col band_col : value) : M ref :=
  let assign_map :=
    [("id_col", id_col); ("time_col", time_col); ("flux_col", flux_col);
     ("err_col", err_col); ("band_col", band_col)] in
  for_each (assign_item self) assign_map;;
  ret self.

(** ** Sequences of operations

    The calls a client can make, and the store they leave behind.  A call
    that raises keeps whatever it changed before raising. *)
Inductive op : Type :=
| OpNew (c : cls) (id_col time_col flux_col err_col band_col : value)
| OpAssign (self : ref) (id_col time_col flux_col err_col band_col : value)
| OpIsReady (self : ref) (show_needed : bool)
| OpUseKnownMap (self : ref) (map_id : string)
| OpSetKnownMap (self : ref).

Definition run_op (x : op) (h : store) : store :=
  match x with
  | OpNew c a b d e f => (new c a b d e f h).2
  | OpAssign self a b d e f => (assign self a b d e f h).2
  | OpIsReady self show_needed => (is_ready self show_needed h).2
  | OpUseKnownMap self map_id => (use_known_map self map_id h).2
  | OpSetKnownMap self => (_set_known_map self h).2
  end.

Definition run_ops (ops : list op) (h : store) : store :=
  foldl (fun h' x => run_op x h') h ops.

(** ** Well-formed instances

    What [__init__] establishes and every operation keeps: the dict has
    the five role keys and no other, and [required] and [known_maps] are
    as [__init__] wrote them. *)
Definition role_keys : gset string := list_to_set role_names.

Definition wf_instance (o : instance) : Prop :=
  dom (map o) = role_keys
  /\ required o = required (init ColumnMapper None None None None None)
  /\ known_maps o = default_known_maps.

Definition wf_store (h : store) : Prop :=
  forall l o, h !! l = Some o -> wf_instance o.

(** The required roles whose value is [None], in declaration order: the
    list the specification asks [is_ready] to compute. *)
Definition missing_roles (m : dict) : list string :=
  filter (fun key => m !! key = Some None) role_names.

(** The effect of one item of [assign_map] on a dict. *)
Definition apply_item (m : dict) (item : string * value) : dict :=
  match item.2 with
  | Some v => <[item.1 := Some v]> m
  | None => m
  end.

(** The keyword arguments of a call, as [assign] collects them. *)
Definition kwargs (id_col time_col flux_col err_col band_col : value)
    : list (string * value) :=
  [("id_col", id_col); ("time_col", time_col); ("flux_col", flux_col);
   ("err_col", err_col); ("band_col", band_col)].

(** What a role holds after [assign] was given [arg] for it. *)
Definition overwrite (arg : value) (old : option value) : option value :=
  match arg with
  | Some v => Some (Some v)
  | None => old
  end.

(** ** A small scenario: [m = ColumnMapper()] in an empty store *)
Definition empty_mapper : instance :=
  init ColumnMapper None None None None None.

Definition example_store : store :=
  (new ColumnMapper None None None None None ∅).2.

(** The value a role ends with when [later] is supplied after
    [earlier]: a later [None] leaves the earlier value. *)
Definition merge_arg (later earlier : value) : value :=
  match later with
  | Some v => Some v
  | None => earlier
  end.

(** ** Further scenarios *)

(** [m = ColumnMapper(); p = m.use_known_map("ZTF")]: [m] is at
    reference 0 and the preset [p] at reference 1. *)
Definition preset_store : store :=
  (use_known_map 0 "ZTF" example_store).2.

Definition preset_mapper : instance :=
  with_map (init ZTFColumnMapper None None None None None) ztf_map.

(** [m = ColumnMapper(); del m.map["flux_col"]]: the attribute [map] is
    public, so client code can take a key out of the dict. *)
Definition broken_mapper : instance :=
  with_map empty_mapper (delete "flux_col" (map empty_mapper)).

Definition broken_store : store := {[0 := broken_mapper]}.

(** A mapper after client code wrote to its public attributes: the
    [required] list has [False] for the band column, and the dict holds
    values for the id and flux columns, [None] for the time and error
    columns and no band key at all. *)
Definition optional_band_mapper : instance :=
  {| class_of := ColumnMapper;
     map := list_to_map
       [("id_col", Some "id"); ("time_col", None);
        ("flux_col", Some "f"); ("err_col", None)];
     required :=
       [MkColumn "id_col" true; MkColumn "time_col" true;
        MkColumn "flux_col" true; MkColumn "err_col" true;
        MkColumn "band_col" false];
     known_maps := default_known_maps |}.

Definition optional_band_store : store := {[0 := optional_band_mapper]}.

(** [o'] is a later state of the object [o]: the class and the
    attributes [required] and [known_maps] are the same, and every role
    that held a string holds a string. *)
Definition later_state (o o' : instance) : Prop :=
  class_of o' = class_of o
  /\ required o' = required o
  /\ known_maps o' = known_maps o
  /\ forall k v, k ∈ role_names -> map o !! k = Some (Some v) ->
       exists v', map o' !! k = Some (Some v').

(** * Properties *)

(** ** The monad and the store *)

Lemma with_map_same (o : instance) : with_map o (map o) = o.
Proof. by destruct o. Qed.

Lemma get_obj_run (h : store) (l : ref) (o : instance) :
  h !! l = Some o -> get_obj l h = (Ret o, h).
Proof. intros Hl. unfold get_obj. by rewrite Hl. Qed.

Lemma set_map_run (h : store) (l : ref) (o : instance) (m : dict) :
  h !! l = Some o -> set_map l m h = (Ret tt, <[l := with_map o m]> h).
Proof. intros Hl. unfold set_map. by rewrite Hl. Qed.

Lemma setitem_run (h : store) (l : ref) (o : instance) (k : string) (v : value) :
  h !! l = Some o ->
  setitem l k v h = (Ret tt, <[l := with_map o (<[k := v]> (map o))]> h).
Proof.
  intros Hl. unfold setitem, bind.
  rewrite (get_obj_run h l o Hl). by apply set_map_run.
Qed.

Lemma alloc_fresh (h : store) : h !! fresh (dom h) = None.
Proof. apply not_elem_of_dom, is_fresh. Qed.

Lemma new_run (h : store) (c : cls) (a b d e f : value) :
  new c a b d e f h =
    (Ret (fresh (dom h)), <[fresh (dom h) := init c a b d e f]> h).
Proof. reflexivity. Qed.

Lemma insert_keeps_old (h : store) (l l' : ref) (o o' : instance) :
  h !! l = None -> h !! l' = Some o' -> <[l := o]> h !! l' = Some o'.
Proof.
  intros Hl Hl'. rewrite lookup_insert_ne; [done|]. congruence.
Qed.

(** ** The loop of [assign] *)

Lemma assign_item_run (h : store) (l : ref) (o : instance) (item : string * value) :
  h !! l = Some o ->
  assign_item l item h =
    (Ret tt, <[l := with_map o (apply_item (map o) item)]> h).
Proof.
  intros Hl. unfold assign_item, apply_item. destruct (item.2) as [v|].
  - by apply setitem_run.
  - rewrite with_map_same, insert_id; done.
Qed.

Lemma for_each_assign_item_run (items : list (string * value)) :
  forall (h : store) (l : ref) (o : instance),
    h !! l = Some o ->
    for_each (assign_item l) items h =
      (Ret tt, <[l := with_map o (foldl apply_item (map o) items)]> h).
Proof.
  induction items as [|item rest IH]; intros h l o Hl; simpl.
  - unfold ret. rewrite with_map_same, insert_id; done.
  - unfold bind. rewrite (assign_item_run h l o item Hl).
    rewrite (IH _ l (with_map o (apply_item (map o) item))).
    + by rewrite insert_insert_eq.
    + apply lookup_insert_eq.
Qed.

Lemma assign_run (h : store) (self : ref) (o : instance) (a b d e f : value) :
  h !! self = Some o ->
  assign self a b d e f h =
    (Ret self,
     <[self := with_map o (foldl apply_item (map o) (kwargs a b d e f))]> h).
Proof.
  intros Hl. unfold assign, bind.
  change [("id_col", a); ("time_col", b); ("flux_col", d);
          ("err_col", e); ("band_col", f)] with (kwargs a b d e f).
  by rewrite (for_each_assign_item_run _ h self o Hl).
Qed.

Lemma lookup_foldl_apply_item (items : list (string * value)) :
  forall (m : dict) (k : string),
    NoDup items.*1 ->
    foldl apply_item m items !! k =
      match (list_to_map items : dict) !! k with
      | Some (Some v) => Some (Some v)
      | _ => m !! k
      end.
Proof.
  induction items as [|[k0 v0] rest IH]; intros m k Hnd; simpl.
  - by rewrite lookup_empty.
  - apply NoDup_cons in Hnd as [Hk0 Hnd]. rewrite (IH _ _ Hnd).
    destruct (decide (k0 = k)) as [->|Hne].
    + rewrite lookup_insert_eq.
      rewrite (not_elem_of_list_to_map_1 _ _ Hk0).
      unfold apply_item; simpl. destruct v0; [by rewrite lookup_insert_eq|done].
    + rewrite (lookup_insert_ne _ k0 k) by done.
      assert (Hap : apply_item m (k0, v0) !! k = m !! k).
      { unfold apply_item; simpl.
        destruct v0; [by rewrite lookup_insert_ne|done]. }
      by rewrite Hap.
Qed.

Lemma dom_foldl_apply_item (items : list (string * value)) :
  forall (m : dict),
    (forall k, k ∈ items.*1 -> k ∈ dom m) ->
    dom (foldl apply_item m items) = dom m.
Proof.
  induction items as [|[k0 v0] rest IH]; intros m Hin; simpl; [done|].
  assert (Hd : dom (apply_item m (k0, v0)) = dom m).
  { unfold apply_item; simpl. destruct v0; [|done].
    rewrite dom_insert_L. apply subseteq_union_1_L, singleton_subseteq_l.
    apply Hin, elem_of_cons. by left. }
  rewrite IH; [done|]. intros k Hk. rewrite Hd.
  apply Hin, elem_of_cons. by right.
Qed.

Lemma kwargs_keys (a b d e f : value) : (kwargs a b d e f).*1 = role_names.
Proof. reflexivity. Qed.

Lemma NoDup_role_names : NoDup role_names.
Proof. apply (bool_decide_unpack _). by vm_compute. Qed.

(** ** The loop of [is_ready] *)

Lemma check_keys_present (m : dict) (keys : list string) :
  forall (ready : bool) (needed : list string),
    (forall k, k ∈ keys -> is_Some (m !! k)) ->
    check_keys m keys ready needed =
      Ret (ready && bool_decide (filter (fun k => m !! k = Some None) keys = []),
           (needed ++ filter (fun k => m !! k = Some None) keys)%list).
Proof.
  induction keys as [|key rest IH]; intros ready needed Hin; simpl.
  - by rewrite andb_true_r, app_nil_r.
  - assert (Hrest : forall k, k ∈ rest -> is_Some (m !! k)).
    { intros k Hk. apply Hin, elem_of_cons. by right. }
    destruct (m !! key) as [[v|]|] eqn:Hk.
    + rewrite filter_cons_False by (rewrite Hk; discriminate).
      by apply IH.
    + rewrite filter_cons_True by done.
      rewrite (IH _ _ Hrest), <- app_assoc. simpl.
      by rewrite andb_false_r.
    + destruct (Hin key) as [x Hx]; [apply elem_of_cons; by left|].
      congruence.
Qed.

Lemma is_ready_run (h : store) (self : ref) (o : instance) (b : bool) :
  h !! self = Some o ->
  is_ready self b h =
    (match check_keys (map o) (required_keys o) true [] with
     | Ret r => Ret (if b then ReadyPair r.1 r.2 else ReadyBool r.1)
     | Raise e => Raise e
     | Stuck => Stuck
     end, h).
Proof.
  intros Hl. unfold is_ready, bind. rewrite (get_obj_run h self o Hl).
  destruct (check_keys _ _ _ _); destruct b; reflexivity.
Qed.

Lemma is_ready_store (h : store) (self : ref) (b : bool) :
  (is_ready self b h).2 = h.
Proof.
  unfold is_ready, bind, get_obj. destruct (h !! self); [|done].
  destruct (check_keys _ _ _ _); destruct b; reflexivity.
Qed.

Lemma wf_required_keys (o : instance) :
  wf_instance o -> required_keys o = role_names.
Proof. intros (_ & Hreq & _). unfold required_keys. by rewrite Hreq. Qed.

Lemma wf_role_present (o : instance) (k : string) :
  wf_instance o -> k ∈ role_names -> is_Some (map o !! k).
Proof.
  intros (Hdom & _) Hk. apply elem_of_dom. rewrite Hdom.
  by apply elem_of_list_to_set.
Qed.

Lemma is_ready_wf (h : store) (self : ref) (o : instance) (b : bool) :
  h !! self = Some o -> wf_instance o ->
  is_ready self b h =
    (Ret (if b
          then ReadyPair (bool_decide (missing_roles (map o) = []))
                         (missing_roles (map o))
          else ReadyBool (bool_decide (missing_roles (map o) = []))), h).
Proof.
  intros Hl Hwf. rewrite (is_ready_run h self o b Hl).
  rewrite (wf_required_keys o Hwf), check_keys_present.
  - reflexivity.
  - intros k. apply wf_role_present, Hwf.
Qed.

(** ** Well-formedness is kept *)

Lemma dom_ztf_map : dom ztf_map = role_keys.
Proof. reflexivity. Qed.

Lemma wf_init (c : cls) (a b d e f : value) : wf_instance (init c a b d e f).
Proof.
  split; [|done]. exact (dom_list_to_map_L (kwargs a b d e f)).
Qed.

Lemma wf_with_map (o : instance) (m : dict) :
  wf_instance o -> dom m = role_keys -> wf_instance (with_map o m).
Proof. intros (_ & Hreq & Hkm) Hdom. by split. Qed.

Lemma wf_store_empty : wf_store ∅.
Proof. intros l o Hl. by rewrite lookup_empty in Hl. Qed.

Lemma wf_store_insert (h : store) (l : ref) (o : instance) :
  wf_store h -> wf_instance o -> wf_store (<[l := o]> h).
Proof.
  intros Hh Ho l' o' Hl'. destruct (decide (l = l')) as [->|Hne].
  - rewrite lookup_insert_eq in Hl'. by inversion Hl'; subst.
  - rewrite lookup_insert_ne in Hl' by done. by apply (Hh l').
Qed.

Lemma set_known_map_run (h : store) (self : ref) (o : instance) :
  h !! self = Some o ->
  _set_known_map self h =
    match class_of o with
    | ColumnMapper => (Raise NotImplementedError, h)
    | ZTFColumnMapper => (Ret self, <[self := with_map o ztf_map]> h)
    end.
Proof.
  intros Hl. unfold _set_known_map, bind. rewrite (get_obj_run h self o Hl).
  destruct (class_of o); [done|]. by rewrite (set_map_run h self o _ Hl).
Qed.

Lemma use_known_map_found (h : store) (self : ref) (o : instance) (map_id : string) :
  h !! self = Some o ->
  known_maps o !! map_id = Some ZTFColumnMapper ->
  use_known_map self map_id h =
    (Ret (fresh (dom h)),
     <[fresh (dom h) :=
         with_map (init ZTFColumnMapper None None None None None) ztf_map]> h).
Proof.
  intros Hl Hk. unfold use_known_map, bind.
  rewrite (get_obj_run h self o Hl), Hk, new_run.
  rewrite (set_known_map_run _ _ (init ZTFColumnMapper None None None None None))
    by apply lookup_insert_eq.
  simpl. by rewrite insert_insert_eq.
Qed.

Lemma use_known_map_not_found (h : store) (self : ref) (o : instance) (map_id : string) :
  h !! self = Some o ->
  known_maps o !! map_id = None ->
  use_known_map self map_id h =
    (Raise (ValueError (unknown_mapping_msg map_id)), h).
Proof.
  intros Hl Hk. unfold use_known_map, bind.
  by rewrite (get_obj_run h self o Hl), Hk.
Qed.

Lemma default_known_maps_lookup (map_id : string) :
  default_known_maps !! map_id =
    if decide (map_id = "ZTF") then Some ZTFColumnMapper else None.
Proof.
  unfold default_known_maps. case_decide as Hid.
  - subst. apply lookup_singleton_eq.
  - by apply lookup_singleton_ne.
Qed.

Lemma for_each_assign_item_dangling (items : list (string * value)) :
  forall (h : store) (l : ref),
    h !! l = None -> (for_each (assign_item l) items h).2 = h.
Proof.
  induction items as [|item rest IH]; intros h l Hl; [done|].
  cbn [for_each]. unfold bind at 1, assign_item.
  destruct (item.2) as [v|].
  - unfold setitem, bind, get_obj. by rewrite Hl.
  - by apply IH.
Qed.

Lemma assign_dangling (h : store) (self : ref) (a b d e f : value) :
  h !! self = None -> (assign self a b d e f h).2 = h.
Proof.
  intros Hl. unfold assign, bind.
  pose proof (for_each_assign_item_dangling (kwargs a b d e f) h self Hl) as Hs.
  unfold kwargs in Hs.
  by destruct (for_each _ _ h) as [[[]| |] h'].
Qed.

Lemma run_op_wf (x : op) (h : store) : wf_store h -> wf_store (run_op x h).
Proof.
  intros Hh. destruct x as [c a b d e f|self a b d e f|self sn|self mid|self];
    unfold run_op.
  - rewrite new_run. apply wf_store_insert; [done|apply wf_init].
  - destruct (h !! self) as [o|] eqn:Hl.
    + rewrite (assign_run h self o a b d e f Hl). cbn [snd].
      pose proof (Hh self o Hl) as Hwf.
      apply wf_store_insert; [done|]. apply wf_with_map; [done|].
      rewrite dom_foldl_apply_item; [by destruct Hwf|].
      intros k Hk. rewrite kwargs_keys in Hk. destruct Hwf as [-> _].
      by apply elem_of_list_to_set.
    + by rewrite assign_dangling.
  - by rewrite is_ready_store.
  - destruct (h !! self) as [o|] eqn:Hl.
    + pose proof (Hh self o Hl) as (_ & _ & Hkm).
      pose proof (default_known_maps_lookup mid) as Hlk. rewrite <- Hkm in Hlk.
      case_decide.
      * rewrite (use_known_map_found h self o mid Hl Hlk). cbn [snd].
        apply wf_store_insert; [done|].
        apply wf_with_map; [apply wf_init|apply dom_ztf_map].
      * by rewrite (use_known_map_not_found h self o mid Hl Hlk).
    + unfold use_known_map, bind, get_obj. by rewrite Hl.
  - destruct (h !! self) as [o|] eqn:Hl.
    + rewrite (set_known_map_run h self o Hl). destruct (class_of o); [done|].
      cbn [snd]. apply wf_store_insert; [done|].
      apply wf_with_map; [by apply (Hh self)|apply dom_ztf_map].
    + unfold _set_known_map, bind, get_obj. by rewrite Hl.
Qed.

Lemma run_ops_wf (ops : list op) :
  forall h : store, wf_store h -> wf_store (run_ops ops h).
Proof.
  induction ops as [|x rest IH]; intros h Hh; simpl; [done|].
  apply IH. by apply run_op_wf.
Qed.

(** ** Strings *)

Lemma append_dquote_inj (a b : string) : a ++ dquote = b ++ dquote -> a = b.
Proof.
  revert b. induction a as [|c a IH]; intros [|c' b] H; simpl in H.
  - done.
  - inversion H as [[Hc Hb]]. destruct b; discriminate.
  - inversion H as [[Hc Ha]]. destruct a; discriminate.
  - inversion H. f_equal. by apply IH.
Qed.

Lemma unknown_mapping_msg_inj (a b : string) :
  unknown_mapping_msg a = unknown_mapping_msg b -> a = b.
Proof.
  unfold unknown_mapping_msg. intros H. simpl in H.
  inversion H as [Heq]. by apply append_dquote_inj.
Qed.

Lemma example_store_lookup : example_store !! 0 = Some empty_mapper.
Proof. reflexivity. Qed.

(** * The claims *)

(** C1: for every identifier other than "ZTF", the only key of the preset
    registry, [use_known_map] raises the unknown-mapping error (a
    [ValueError] in the code) whose message contains the identifier
    between double quotes; the identifier can be read back from it. *)
Theorem use_known_map_unknown_raises
    (h : store) (self : ref) (o : instance) (map_id : string) :
  h !! self = Some o -> wf_instance o -> map_id <> "ZTF" ->
  dom (known_maps o) = {["ZTF"]}
  /\ use_known_map self map_id h =
       (Raise (ValueError (unknown_mapping_msg map_id)), h)
  /\ (exists pre post, unknown_mapping_msg map_id = pre ++ map_id ++ post)
  /\ (forall other,
        unknown_mapping_msg other = unknown_mapping_msg map_id ->
        other = map_id).
Proof.
  intros Hl (_ & _ & Hkm) Hid. repeat split.
  - rewrite Hkm. unfold default_known_maps. by rewrite dom_singleton_L.
  - apply (use_known_map_not_found h self o map_id Hl).
    rewrite Hkm, default_known_maps_lookup. by case_decide.
  - by exists ("Unknown Mapping: " ++ dquote), dquote.
  - intros other. apply unknown_mapping_msg_inj.
Qed.

Lemma use_known_map_unknown_raises_witness :
  example_store !! 0 = Some empty_mapper
  /\ wf_instance empty_mapper
  /\ "UNKNOWN" <> "ZTF"
  /\ use_known_map 0 "UNKNOWN" example_store =
       (Raise (ValueError (unknown_mapping_msg "UNKNOWN")), example_store).
Proof.
  assert (H1 : example_store !! 0 = Some empty_mapper) by reflexivity.
  assert (H2 : wf_instance empty_mapper) by apply wf_init.
  assert (H3 : "UNKNOWN" <> "ZTF") by discriminate.
  split; [exact H1|]. split; [exact H2|]. split; [exact H3|].
  apply (use_known_map_unknown_raises example_store 0 empty_mapper
           "UNKNOWN" H1 H2 H3).
Defined.

(** C2: [use_known_map("ZTF")], on any mapper, returns a mapper whose dict
    is exactly the ZTF table and on which [is_ready()] is [True]. *)
Theorem use_known_map_ZTF_preset (h : store) (self : ref) (o : instance) :
  h !! self = Some o -> wf_instance o ->
  exists (l : ref) (h' : store) (o' : instance),
    use_known_map self "ZTF" h = (Ret l, h')
    /\ h' !! l = Some o'
    /\ class_of o' = ZTFColumnMapper
    /\ map o' =
         list_to_map
           [("id_col", Some "ps1_objid"); ("time_col", Some "midPointTai");
            ("flux_col", Some "psFlux"); ("err_col", Some "psFluxErr");
            ("band_col", Some "filterName")]
    /\ is_ready l false h' = (Ret (ReadyBool true), h').
Proof.
  intros Hl (_ & _ & Hkm).
  assert (Hk : known_maps o !! "ZTF" = Some ZTFColumnMapper).
  { rewrite Hkm. apply lookup_singleton_eq. }
  eexists _, _, _. split; [apply (use_known_map_found h self o "ZTF" Hl Hk)|].
  split; [apply lookup_insert_eq|]. split; [done|]. split; [done|].
  rewrite (is_ready_run _ _ _ false (lookup_insert_eq _ _ _)).
  reflexivity.
Qed.

Lemma use_known_map_ZTF_preset_witness :
  example_store !! 0 = Some empty_mapper
  /\ wf_instance empty_mapper
  /\ exists (l : ref) (h' : store) (o' : instance),
       use_known_map 0 "ZTF" example_store = (Ret l, h')
       /\ h' !! l = Some o'
       /\ class_of o' = ZTFColumnMapper
       /\ map o' =
            list_to_map
              [("id_col", Some "ps1_objid"); ("time_col", Some "midPointTai");
               ("flux_col", Some "psFlux"); ("err_col", Some "psFluxErr");
               ("band_col", Some "filterName")]
       /\ is_ready l false h' = (Ret (ReadyBool true), h').
Proof.
  assert (H1 : example_store !! 0 = Some empty_mapper) by reflexivity.
  assert (H2 : wf_instance empty_mapper) by apply wf_init.
  split; [exact H1|]. split; [exact H2|].
  apply (use_known_map_ZTF_preset example_store 0 empty_mapper H1 H2).
Defined.

(** C3: [use_known_map] changes no instance that exists when it is
    called, the one it is called on included.  When it succeeds the
    instance it returns is a new one, and assigning to that one later
    changes no older instance either; when it fails the store is the one
    it started from. *)
Theorem use_known_map_keeps_instances
    (h : store) (self : ref) (o : instance) (map_id : string) :
  h !! self = Some o -> wf_instance o ->
  (forall l o0, h !! l = Some o0 ->
     (use_known_map self map_id h).2 !! l = Some o0)
  /\ match (use_known_map self map_id h).1 with
     | Ret l =>
         map_id = "ZTF" /\ h !! l = None
         /\ is_Some ((use_known_map self map_id h).2 !! l)
         /\ forall a b d e f l0 o0, h !! l0 = Some o0 ->
              (assign l a b d e f (use_known_map self map_id h).2).2 !! l0
              = Some o0
     | Raise e =>
         map_id <> "ZTF" /\ e = ValueError (unknown_mapping_msg map_id)
         /\ (use_known_map self map_id h).2 = h
     | Stuck => False
     end.
Proof.
  intros Hl (_ & _ & Hkm).
  pose proof (default_known_maps_lookup map_id) as Hlk. rewrite <- Hkm in Hlk.
  case_decide as Hid.
  - rewrite (use_known_map_found h self o map_id Hl Hlk). cbn [fst snd].
    pose proof (alloc_fresh h) as Hfresh. split; [|repeat split].
    + intros l o0 Hl0. by apply insert_keeps_old.
    + done.
    + done.
    + rewrite lookup_insert_eq. by eexists.
    + intros a b d e f l0 o0 Hl0.
      rewrite (assign_run _ _ _ a b d e f (lookup_insert_eq _ _ _)).
      cbn [snd]. rewrite insert_insert_eq. by apply insert_keeps_old.
  - rewrite (use_known_map_not_found h self o map_id Hl Hlk). cbn [fst snd].
    by repeat split.
Qed.

Lemma use_known_map_keeps_instances_witness :
  example_store !! 0 = Some empty_mapper
  /\ wf_instance empty_mapper
  /\ forall l o0, example_store !! l = Some o0 ->
       (use_known_map 0 "ZTF" example_store).2 !! l = Some o0.
Proof.
  assert (H1 : example_store !! 0 = Some empty_mapper) by reflexivity.
  assert (H2 : wf_instance empty_mapper) by apply wf_init.
  split; [exact H1|]. split; [exact H2|].
  apply (use_known_map_keeps_instances example_store 0 empty_mapper "ZTF"
           H1 H2).
Defined.

(** C4: whatever five optional values the constructor is given,
    [is_ready()] on the new mapper is [True] exactly when none of the
    five is [None]. *)
Theorem is_ready_after_construction
    (h : store) (c : cls) (id_col time_col flux_col err_col band_col : value) :
  exists (l : ref) (h' : store) (ready : bool),
    new c id_col time_col flux_col err_col band_col h = (Ret l, h')
    /\ is_ready l false h' = (Ret (ReadyBool ready), h')
    /\ (ready = true <->
        is_Some id_col /\ is_Some time_col /\ is_Some flux_col
        /\ is_Some err_col /\ is_Some band_col).
Proof.
  eexists _, _, _. split; [apply new_run|].
  split.
  - apply (is_ready_wf _ _ (init c id_col time_col flux_col err_col band_col)
             false (lookup_insert_eq _ _ _)), wf_init.
  - cbv beta iota. rewrite <- !not_eq_None_Some.
    destruct id_col, time_col, flux_col, err_col, band_col;
      (split; [intros Hr; try discriminate Hr; by repeat split
              |intros (H1 & H2 & H3 & H4 & H5); try done]).
Qed.

(** C5: with [show_needed=True], [is_ready] returns the pair of the
    readiness flag and the required roles whose value is [None], in
    declaration order, and leaves the store as it was (as it does with
    [show_needed=False]); on a mapper constructed without arguments the
    pair is [(False, [all five role names])]. *)
Theorem is_ready_show_needed (h : store) (self : ref) (o : instance) :
  h !! self = Some o -> wf_instance o ->
  is_ready self true h =
    (Ret (ReadyPair (bool_decide (missing_roles (map o) = []))
                    (missing_roles (map o))), h)
  /\ (forall k, k ∈ missing_roles (map o) <->
                k ∈ role_names /\ map o !! k = Some None)
  /\ missing_roles (map o) `sublist_of` role_names
  /\ (is_ready self false h).2 = h
  /\ (forall (c : cls) (h0 : store),
        exists (l : ref) (h1 : store),
          new c None None None None None h0 = (Ret l, h1)
          /\ is_ready l true h1 =
               (Ret (ReadyPair false
                       ["id_col"; "time_col"; "flux_col"; "err_col";
                        "band_col"]), h1)).
Proof.
  intros Hl Hwf. split; [apply (is_ready_wf h self o true Hl Hwf)|].
  split.
  { intros k. unfold missing_roles. rewrite list_elem_of_filter. tauto. }
  split; [apply sublist_filter|].
  split; [apply is_ready_store|].
  intros c h0. eexists _, _. split; [apply new_run|].
  rewrite (is_ready_wf _ _ (init c None None None None None) true
             (lookup_insert_eq _ _ _) (wf_init _ _ _ _ _ _)).
  reflexivity.
Qed.

Lemma is_ready_show_needed_witness :
  example_store !! 0 = Some empty_mapper
  /\ wf_instance empty_mapper
  /\ is_ready 0 true example_store =
       (Ret (ReadyPair (bool_decide (missing_roles (map empty_mapper) = []))
                       (missing_roles (map empty_mapper))), example_store).
Proof.
  assert (H1 : example_store !! 0 = Some empty_mapper) by reflexivity.
  assert (H2 : wf_instance empty_mapper) by apply wf_init.
  split; [exact H1|]. split; [exact H2|].
  apply (is_ready_show_needed example_store 0 empty_mapper H1 H2).
Defined.

(** C6: [assign()] without arguments returns the instance it was called
    on, raises nothing and leaves the whole store, hence every role of
    every instance, as it was. *)
Theorem assign_no_arguments (h : store) (self : ref) (o : instance) :
  h !! self = Some o ->
  assign self None None None None None h = (Ret self, h).
Proof.
  intros Hl. rewrite (assign_run h self o _ _ _ _ _ Hl).
  cbn [kwargs foldl apply_item snd]. by rewrite with_map_same, insert_id.
Qed.

Lemma assign_no_arguments_witness :
  example_store !! 0 = Some empty_mapper
  /\ assign 0 None None None None None example_store = (Ret 0, example_store).
Proof.
  assert (H1 : example_store !! 0 = Some empty_mapper) by reflexivity.
  split; [exact H1|].
  apply (assign_no_arguments example_store 0 empty_mapper H1).
Defined.

(** C7: [assign] returns [self] and changes only the dict of [self]:
    each of the five roles holds the supplied value when one was supplied
    and its old value otherwise, and no other key changes.  Two calls
    [assign(time_col=v1)], [assign(time_col=v2)] leave [time_col] at [v2]
    and every other role as before the two calls. *)
Theorem assign_overwrites_supplied
    (h : store) (self : ref) (o : instance)
    (id_col time_col flux_col err_col band_col : value) :
  h !! self = Some o ->
  (exists o' : instance,
     assign self id_col time_col flux_col err_col band_col h =
       (Ret self, <[self := o']> h)
     /\ class_of o' = class_of o
     /\ required o' = required o
     /\ known_maps o' = known_maps o
     /\ map o' !! "id_col" = overwrite id_col (map o !! "id_col")
     /\ map o' !! "time_col" = overwrite time_col (map o !! "time_col")
     /\ map o' !! "flux_col" = overwrite flux_col (map o !! "flux_col")
     /\ map o' !! "err_col" = overwrite err_col (map o !! "err_col")
     /\ map o' !! "band_col" = overwrite band_col (map o !! "band_col")
     /\ (forall k, k ∉ role_names -> map o' !! k = map o !! k))
  /\ (forall v1 v2 : string,
        (assign self None (Some v1) None None None;;
         assign self None (Some v2) None None None) h =
          (Ret self,
           <[self := with_map o (<["time_col" := Some v2]> (map o))]> h)).
Proof.
  intros Hl. split.
  - eexists. split; [apply (assign_run h self o _ _ _ _ _ Hl)|].
    cbn [class_of required known_maps map with_map].
    pose proof NoDup_role_names as Hnd.
    repeat (split; [first
      [ reflexivity
      | rewrite lookup_foldl_apply_item by exact Hnd;
        match goal with
        | |- context [overwrite ?a _] => by destruct a
        end ]|]).
    intros k Hk. rewrite lookup_foldl_apply_item by exact Hnd.
    by rewrite (not_elem_of_list_to_map_1 (kwargs _ _ _ _ _) k Hk).
  - intros v1 v2. unfold bind.
    rewrite (assign_run h self o _ _ _ _ _ Hl).
    rewrite (assign_run _ self _ _ _ _ _ _ (lookup_insert_eq _ _ _)).
    cbn [kwargs foldl apply_item fst snd map with_map].
    by rewrite !insert_insert_eq.
Qed.

Lemma assign_overwrites_supplied_witness :
  example_store !! 0 = Some empty_mapper
  /\ forall v1 v2 : string,
       (assign 0 None (Some v1) None None None;;
        assign 0 None (Some v2) None None None) example_store =
         (Ret 0,
          <[0 := with_map empty_mapper
                   (<["time_col" := Some v2]> (map empty_mapper))]>
            example_store).
Proof.
  assert (H1 : example_store !! 0 = Some empty_mapper) by reflexivity.
  split; [exact H1|].
  apply (assign_overwrites_supplied example_store 0 empty_mapper
           None None None None None H1).
Defined.

(** C8: [ColumnMapper.map_id()] is [None] and [ZTFColumnMapper.map_id()]
    is the string "ZTF", the key under which the registry holds that
    class; [map_id] is a total function, so neither call fails. *)
Theorem map_id_of_each_class :
  map_id ColumnMapper = None
  /\ map_id ZTFColumnMapper = Some "ZTF"
  /\ (forall (key : string) (c : cls),
        default_known_maps !! key = Some c -> map_id c = Some key).
Proof.
  split; [done|]. split; [done|]. intros key c.
  rewrite default_known_maps_lookup. case_decide; [|done].
  intros [= <-]. by subst.
Qed.

(** C9: in every store reached from the empty one by constructor calls
    and calls of [assign], [is_ready], [use_known_map] and
    [_set_known_map], the dict of every instance has the five role keys
    and no other key. *)
Theorem role_keys_invariant (ops : list op) (l : ref) (o : instance) :
  run_ops ops ∅ !! l = Some o ->
  dom (map o) = list_to_set role_names
  /\ (forall k, is_Some (map o !! k) <-> k ∈ role_names).
Proof.
  intros Hl.
  destruct (run_ops_wf ops ∅ wf_store_empty l o Hl) as (Hdom & _).
  split; [exact Hdom|].
  intros k. rewrite <- elem_of_dom, Hdom. apply elem_of_list_to_set.
Qed.

Lemma role_keys_invariant_witness :
  run_ops [OpNew ColumnMapper None None None None None;
           OpAssign 0 None (Some "mjd") None None None;
           OpUseKnownMap 0 "ZTF"; OpUseKnownMap 0 "UNKNOWN";
           OpIsReady 1 true; OpSetKnownMap 0] ∅ !! 1
    = Some (with_map (init ZTFColumnMapper None None None None None) ztf_map)
  /\ dom ztf_map = list_to_set role_names.
Proof.
  assert (H1 : run_ops [OpNew ColumnMapper None None None None None;
           OpAssign 0 None (Some "mjd") None None None;
           OpUseKnownMap 0 "ZTF"; OpUseKnownMap 0 "UNKNOWN";
           OpIsReady 1 true; OpSetKnownMap 0] ∅ !! 1
    = Some (with_map (init ZTFColumnMapper None None None None None) ztf_map))
    by reflexivity.
  split; [exact H1|].
  apply (role_keys_invariant _ 1 _ H1).
Defined.

(** C10: only [None] counts as unassigned.  A mapper constructed with
    the empty string for all five roles is ready; [assign] with the empty
    string for all five roles stores it in each of them, and the mapper
    is ready afterwards. *)
Theorem empty_string_is_assigned (h : store) (self : ref) (o : instance) :
  h !! self = Some o -> wf_instance o ->
  (forall (c : cls) (h0 : store),
     exists (l : ref) (h1 : store),
       new c (Some EmptyString) (Some EmptyString) (Some EmptyString)
             (Some EmptyString) (Some EmptyString) h0 = (Ret l, h1)
       /\ is_ready l true h1 = (Ret (ReadyPair true []), h1)
       /\ is_ready l false h1 = (Ret (ReadyBool true), h1))
  /\ exists (o' : instance),
       assign self (Some EmptyString) (Some EmptyString) (Some EmptyString)
                   (Some EmptyString) (Some EmptyString) h =
         (Ret self, <[self := o']> h)
       /\ (forall k, k ∈ role_names -> map o' !! k = Some (Some EmptyString))
       /\ is_ready self false (<[self := o']> h) =
            (Ret (ReadyBool true), <[self := o']> h).
Proof.
  intros Hl Hwf. split.
  - intros c h0. eexists _, _. split; [apply new_run|].
    split.
    + rewrite (is_ready_wf _ _ _ true (lookup_insert_eq _ _ _)
                 (wf_init _ _ _ _ _ _)).
      reflexivity.
    + rewrite (is_ready_wf _ _ _ false (lookup_insert_eq _ _ _)
                 (wf_init _ _ _ _ _ _)).
      reflexivity.
  - eexists. split; [apply (assign_run h self o _ _ _ _ _ Hl)|].
    assert (Hall : forall k, k ∈ role_names ->
      foldl apply_item (map o)
        (kwargs (Some EmptyString) (Some EmptyString) (Some EmptyString)
                (Some EmptyString) (Some EmptyString)) !! k
      = Some (Some EmptyString)).
    { intros k Hk. rewrite lookup_foldl_apply_item by exact NoDup_role_names.
      unfold role_names in Hk. rewrite !elem_of_cons in Hk.
      destruct Hk as [->|[->|[->|[->|[->|Hk]]]]];
        [reflexivity..|by apply elem_of_nil in Hk]. }
    split; [exact Hall|].
    assert (Hwf' : wf_instance (with_map o
      (foldl apply_item (map o)
        (kwargs (Some EmptyString) (Some EmptyString) (Some EmptyString)
                (Some EmptyString) (Some EmptyString))))).
    { apply wf_with_map; [done|].
      rewrite dom_foldl_apply_item; [by destruct Hwf|].
      intros k Hk. rewrite kwargs_keys in Hk. destruct Hwf as [-> _].
      by apply elem_of_list_to_set. }
    rewrite (is_ready_wf _ _ _ false (lookup_insert_eq _ _ _) Hwf').
    do 3 f_equal. apply bool_decide_eq_true_2.
    unfold missing_roles. apply elem_of_nil_inv. intros k.
    rewrite list_elem_of_filter. intros [Hnone Hk].
    cbn [map with_map] in Hnone. rewrite (Hall k Hk) in Hnone.
    discriminate Hnone.
Qed.

Lemma empty_string_is_assigned_witness :
  example_store !! 0 = Some empty_mapper
  /\ wf_instance empty_mapper
  /\ forall (c : cls) (h0 : store),
       exists (l : ref) (h1 : store),
         new c (Some EmptyString) (Some EmptyString) (Some EmptyString)
               (Some EmptyString) (Some EmptyString) h0 = (Ret l, h1)
         /\ is_ready l true h1 = (Ret (ReadyPair true []), h1)
         /\ is_ready l false h1 = (Ret (ReadyBool true), h1).
Proof.
  assert (H1 : example_store !! 0 = Some empty_mapper) by reflexivity.
  assert (H2 : wf_instance empty_mapper) by apply wf_init.
  split; [exact H1|]. split; [exact H2|].
  apply (empty_string_is_assigned example_store 0 empty_mapper H1 H2).
Defined.

(** * Further properties of the code *)

(** ** [is_ready] with any [required] list *)

Lemma check_keys_missing (m : dict) (pre : list string) (key : string)
    (post : list string) :
  forall (ready : bool) (needed : list string),
    (forall k, k ∈ pre -> is_Some (m !! k)) ->
    m !! key = None ->
    check_keys m (pre ++ key :: post) ready needed = Raise (KeyError key).
Proof.
  induction pre as [|k0 pre IH]; intros ready needed Hpre Hkey; simpl.
  - by rewrite Hkey.
  - destruct (Hpre k0) as [x Hx]; [apply elem_of_cons; by left|].
    rewrite Hx.
    assert (Hrest : forall k, k ∈ pre -> is_Some (m !! k)).
    { intros k Hk. apply Hpre, elem_of_cons. by right. }
    destruct x; by apply IH.
Qed.

Lemma check_keys_flag (m : dict) (keys : list string) :
  forall (ready : bool) (needed : list string) (r : bool) (n : list string),
    check_keys m keys ready needed = Ret (r, n) ->
    (ready = true <-> needed = []) ->
    (r = true <-> n = []).
Proof.
  induction keys as [|key rest IH]; intros ready needed r n Hrun Hinv;
    simpl in Hrun.
  - by inversion Hrun; subst.
  - destruct (m !! key) as [[v|]|]; [by apply (IH ready needed)| |done].
    apply (IH false (needed ++ [key])%list); [done|].
    split; [done|]. intros Happ. by apply app_nil in Happ as [_ ?].
Qed.

Lemma check_keys_not_stuck (m : dict) (keys : list string) :
  forall (ready : bool) (needed : list string),
    check_keys m keys ready needed <> Stuck.
Proof.
  induction keys as [|key rest IH]; intros ready needed; simpl; [done|].
  destruct (m !! key) as [[v|]|]; [apply IH|apply IH|done].
Qed.

Lemma elem_of_required_keys (o : instance) (k : string) :
  k ∈ required_keys o <-> MkColumn k true ∈ required o.
Proof.
  unfold required_keys. rewrite list_elem_of_fmap. split.
  - intros ([n b] & -> & Hcol). apply list_elem_of_filter in Hcol as [Hb Hin].
    simpl in Hb. by subst.
  - intros Hin. exists (MkColumn k true). split; [done|].
    by apply list_elem_of_filter.
Qed.

(** X1: [is_ready] looks only at the columns of [self.required] whose
    [is_required] flag is set: when the dict has a key for each of them,
    the call returns, the needed list is those among them whose value is
    [None], in the order of [self.required], and the flag says whether
    that list is empty.  A column whose flag is not set is never
    reported, whatever the dict holds for it. *)
Theorem is_ready_checks_flagged_columns
    (h : store) (self : ref) (o : instance) (show_needed : bool) :
  h !! self = Some o ->
  (forall k, MkColumn k true ∈ required o -> is_Some (map o !! k)) ->
  is_ready self show_needed h =
    (Ret (if show_needed
          then ReadyPair
                 (bool_decide
                    (filter (fun k => map o !! k = Some None)
                       (required_keys o) = []))
                 (filter (fun k => map o !! k = Some None) (required_keys o))
          else ReadyBool
                 (bool_decide
                    (filter (fun k => map o !! k = Some None)
                       (required_keys o) = []))), h)
  /\ (forall k,
        k ∈ filter (fun k => map o !! k = Some None) (required_keys o) <->
        MkColumn k true ∈ required o /\ map o !! k = Some None).
Proof.
  intros Hl Hpresent. split.
  - rewrite (is_ready_run h self o show_needed Hl), check_keys_present.
    + reflexivity.
    + intros k Hk. by apply Hpresent, elem_of_required_keys.
  - intros k. rewrite list_elem_of_filter, elem_of_required_keys. tauto.
Qed.

Lemma is_ready_checks_flagged_columns_witness :
  optional_band_store !! 0 = Some optional_band_mapper
  /\ (forall k, MkColumn k true ∈ required optional_band_mapper ->
        is_Some (map optional_band_mapper !! k))
  /\ is_ready 0 true optional_band_store =
       (Ret (ReadyPair false ["time_col"; "err_col"]), optional_band_store).
Proof.
  assert (H1 : optional_band_store !! 0 = Some optional_band_mapper)
    by reflexivity.
  assert (H2 : forall k, MkColumn k true ∈ required optional_band_mapper ->
                 is_Some (map optional_band_mapper !! k)).
  { intros k Hk. unfold optional_band_mapper in Hk. cbn [required] in Hk.
    rewrite !elem_of_cons in Hk.
    destruct Hk as [Hk|[Hk|[Hk|[Hk|[Hk|Hk]]]]];
      [injection Hk as ->; by eexists..|discriminate Hk
      |by apply elem_of_nil in Hk]. }
  split; [exact H1|]. split; [exact H2|].
  apply (is_ready_checks_flagged_columns optional_band_store 0
           optional_band_mapper true H1 H2).
Defined.

(** X2: when the dict of a mapper lacks the key of a required column,
    [is_ready] raises [KeyError] for the first such key in the order of
    [self.required], with either value of [show_needed], and changes
    nothing. *)
Theorem is_ready_missing_key_raises
    (h : store) (self : ref) (o : instance) (show_needed : bool)
    (pre : list string) (key : string) (post : list string) :
  h !! self = Some o ->
  required_keys o = (pre ++ key :: post)%list ->
  (forall k, k ∈ pre -> is_Some (map o !! k)) ->
  map o !! key = None ->
  is_ready self show_needed h = (Raise (KeyError key), h).
Proof.
  intros Hl Hkeys Hpre Hkey. rewrite (is_ready_run h self o show_needed Hl).
  by rewrite Hkeys, check_keys_missing.
Qed.

Lemma is_ready_missing_key_raises_witness :
  broken_store !! 0 = Some broken_mapper
  /\ required_keys broken_mapper =
       (["id_col"; "time_col"] ++ "flux_col" :: ["err_col"; "band_col"])%list
  /\ (forall k, k ∈ ["id_col"; "time_col"] ->
        is_Some (map broken_mapper !! k))
  /\ map broken_mapper !! "flux_col" = None
  /\ is_ready 0 false broken_store = (Raise (KeyError "flux_col"), broken_store).
Proof.
  assert (H1 : broken_store !! 0 = Some broken_mapper) by reflexivity.
  assert (H2 : required_keys broken_mapper =
    (["id_col"; "time_col"] ++ "flux_col" :: ["err_col"; "band_col"])%list)
    by reflexivity.
  assert (H3 : forall k, k ∈ ["id_col"; "time_col"] ->
                 is_Some (map broken_mapper !! k)).
  { intros k Hk. rewrite !elem_of_cons in Hk.
    destruct Hk as [->|[->|Hk]]; [by eexists..|by apply elem_of_nil in Hk]. }
  assert (H4 : map broken_mapper !! "flux_col" = None) by reflexivity.
  split; [exact H1|]. split; [exact H2|]. split; [exact H3|].
  split; [exact H4|].
  apply (is_ready_missing_key_raises broken_store 0 broken_mapper false
           _ _ _ H1 H2 H3 H4).
Defined.

(** X3: the two ways of calling [is_ready] agree, whatever the instance
    holds: when [is_ready(True)] returns [(ready, needed)] then
    [is_ready()] returns the same [ready], and [ready] is [True] exactly
    when [needed] is empty; when one raises, the other raises the same
    exception. *)
Theorem is_ready_modes_agree (h : store) (self : ref) (o : instance) :
  h !! self = Some o ->
  match (is_ready self true h).1 with
  | Ret (ReadyPair ready needed) =>
      (is_ready self false h).1 = Ret (ReadyBool ready)
      /\ (ready = true <-> needed = [])
  | Ret (ReadyBool _) => False
  | Raise e => (is_ready self false h).1 = Raise e
  | Stuck => False
  end.
Proof.
  intros Hl. rewrite !(is_ready_run h self o _ Hl). cbn [fst].
  destruct (check_keys (map o) (required_keys o) true []) as [[r n]|e|] eqn:Hc.
  - split; [done|]. by apply (check_keys_flag _ _ _ _ _ _ Hc).
  - done.
  - by apply check_keys_not_stuck in Hc.
Qed.

Lemma is_ready_modes_agree_witness :
  optional_band_store !! 0 = Some optional_band_mapper
  /\ match (is_ready 0 true optional_band_store).1 with
     | Ret (ReadyPair ready needed) =>
         (is_ready 0 false optional_band_store).1 = Ret (ReadyBool ready)
         /\ (ready = true <-> needed = [])
     | Ret (ReadyBool _) => False
     | Raise e => (is_ready 0 false optional_band_store).1 = Raise e
     | Stuck => False
     end.
Proof.
  assert (H1 : optional_band_store !! 0 = Some optional_band_mapper)
    by reflexivity.
  split; [exact H1|].
  apply (is_ready_modes_agree optional_band_store 0 optional_band_mapper H1).
Defined.

(** ** How calls of [assign] compose *)

Lemma lookup_kwargs (a b d e f : value) (k : string) :
  (list_to_map (kwargs a b d e f) : dict) !! k =
    if decide (k = "id_col") then Some a
    else if decide (k = "time_col") then Some b
    else if decide (k = "flux_col") then Some d
    else if decide (k = "err_col") then Some e
    else if decide (k = "band_col") then Some f
    else None.
Proof.
  unfold kwargs. cbn [list_to_map foldr uncurry].
  repeat case_decide; subst; by simplify_map_eq.
Qed.

Lemma foldl_apply_item_merge (m : dict) (a1 b1 d1 e1 f1 a2 b2 d2 e2 f2 : value) :
  foldl apply_item (foldl apply_item m (kwargs a1 b1 d1 e1 f1))
    (kwargs a2 b2 d2 e2 f2) =
  foldl apply_item m
    (kwargs (merge_arg a2 a1) (merge_arg b2 b1) (merge_arg d2 d1)
            (merge_arg e2 e1) (merge_arg f2 f1)).
Proof.
  apply map_eq. intros k.
  rewrite !lookup_foldl_apply_item by exact NoDup_role_names.
  rewrite !lookup_kwargs.
  repeat case_decide; unfold merge_arg; repeat case_match; congruence.
Qed.

Lemma foldl_apply_item_init (a1 b1 d1 e1 f1 a2 b2 d2 e2 f2 : value) :
  foldl apply_item (list_to_map (kwargs a1 b1 d1 e1 f1))
    (kwargs a2 b2 d2 e2 f2) =
  list_to_map
    (kwargs (merge_arg a2 a1) (merge_arg b2 b1) (merge_arg d2 d1)
            (merge_arg e2 e1) (merge_arg f2 f1)).
Proof.
  apply map_eq. intros k.
  rewrite !lookup_foldl_apply_item by exact NoDup_role_names.
  rewrite !lookup_kwargs.
  repeat case_decide; unfold merge_arg; repeat case_match; congruence.
Qed.

Lemma merge_arg_same (a : value) : merge_arg a a = a.
Proof. by destruct a. Qed.

Lemma wf_assign (o : instance) (a b d e f : value) :
  wf_instance o ->
  wf_instance (with_map o (foldl apply_item (map o) (kwargs a b d e f))).
Proof.
  intros Hwf. apply wf_with_map; [done|].
  rewrite dom_foldl_apply_item; [by destruct Hwf|].
  intros k Hk. rewrite kwargs_keys in Hk. destruct Hwf as [-> _].
  by apply elem_of_list_to_set.
Qed.

(** X4: two calls of [assign] in a row on one mapper do what a single
    call does whose argument for each role is the later value when one
    was supplied and the earlier one otherwise; so repeating a call
    changes nothing more. *)
Theorem assign_twice_merges
    (h : store) (self : ref) (o : instance)
    (a1 b1 d1 e1 f1 a2 b2 d2 e2 f2 : value) :
  h !! self = Some o ->
  (assign self a1 b1 d1 e1 f1;; assign self a2 b2 d2 e2 f2) h =
    assign self (merge_arg a2 a1) (merge_arg b2 b1) (merge_arg d2 d1)
                (merge_arg e2 e1) (merge_arg f2 f1) h
  /\ (assign self a1 b1 d1 e1 f1;; assign self a1 b1 d1 e1 f1) h =
       assign self a1 b1 d1 e1 f1 h.
Proof.
  intros Hl.
  assert (Hgen : forall a2 b2 d2 e2 f2,
    (assign self a1 b1 d1 e1 f1;; assign self a2 b2 d2 e2 f2) h =
      assign self (merge_arg a2 a1) (merge_arg b2 b1) (merge_arg d2 d1)
                  (merge_arg e2 e1) (merge_arg f2 f1) h).
  { intros a b d e f. unfold bind.
    rewrite (assign_run h self o a1 b1 d1 e1 f1 Hl).
    rewrite (assign_run _ self _ a b d e f (lookup_insert_eq _ _ _)).
    rewrite (assign_run h self o _ _ _ _ _ Hl).
    cbn [map with_map class_of required known_maps].
    by rewrite insert_insert_eq, foldl_apply_item_merge. }
  split; [apply Hgen|]. by rewrite Hgen, !merge_arg_same.
Qed.

Lemma assign_twice_merges_witness :
  example_store !! 0 = Some empty_mapper
  /\ (assign 0 (Some "id") (Some "t") None None None;;
      assign 0 None (Some "mjd") (Some "flux") None None) example_store =
       assign 0 (Some "id") (Some "mjd") (Some "flux") None None example_store.
Proof.
  assert (H1 : example_store !! 0 = Some empty_mapper) by reflexivity.
  split; [exact H1|].
  apply (assign_twice_merges example_store 0 empty_mapper
           (Some "id") (Some "t") None None None
           None (Some "mjd") (Some "flux") None None H1).
Defined.

(** X5: constructing a mapper and then calling [assign] on it gives the
    same reference and the same store as constructing it with, for each
    role, the assigned value when one was supplied and the constructor's
    value otherwise; in particular [ColumnMapper().assign(...)] is
    [ColumnMapper(...)]. *)
Theorem construct_then_assign
    (h : store) (c : cls) (a1 b1 d1 e1 f1 a2 b2 d2 e2 f2 : value) :
  (let* l := new c a1 b1 d1 e1 f1 in assign l a2 b2 d2 e2 f2) h =
    new c (merge_arg a2 a1) (merge_arg b2 b1) (merge_arg d2 d1)
          (merge_arg e2 e1) (merge_arg f2 f1) h
  /\ (let* l := new c None None None None None in assign l a2 b2 d2 e2 f2) h =
       new c a2 b2 d2 e2 f2 h.
Proof.
  assert (Hgen : forall a1 b1 d1 e1 f1,
    (let* l := new c a1 b1 d1 e1 f1 in assign l a2 b2 d2 e2 f2) h =
      new c (merge_arg a2 a1) (merge_arg b2 b1) (merge_arg d2 d1)
            (merge_arg e2 e1) (merge_arg f2 f1) h).
  { intros a b d e f. unfold bind. rewrite !new_run.
    rewrite (assign_run _ _ _ a2 b2 d2 e2 f2 (lookup_insert_eq _ _ _)).
    rewrite insert_insert_eq. do 2 f_equal.
    unfold with_map, init. cbn [class_of required known_maps map].
    f_equal. apply foldl_apply_item_init. }
  split; [apply Hgen|]. rewrite Hgen.
  by destruct a2, b2, d2, e2, f2.
Qed.

(** X6: after [assign] on a mapper with the five role keys, [is_ready]
    reports as needed exactly the roles that were needed before and for
    which the call supplied no value, in the same order. *)
Theorem assign_shrinks_needed
    (h : store) (self : ref) (o : instance) (a b d e f : value) :
  h !! self = Some o -> wf_instance o ->
  exists (h' : store) (needed : list string),
    assign self a b d e f h = (Ret self, h')
    /\ needed =
         filter (fun k => (list_to_map (kwargs a b d e f) : dict) !! k
                          = Some None)
           (missing_roles (map o))
    /\ is_ready self true h' =
         (Ret (ReadyPair (bool_decide (needed = [])) needed), h').
Proof.
  intros Hl Hwf. eexists _, _.
  split; [apply (assign_run h self o a b d e f Hl)|]. split; [reflexivity|].
  rewrite (is_ready_wf _ _ _ true (lookup_insert_eq _ _ _)
             (wf_assign o a b d e f Hwf)).
  cbn [map with_map].
  assert (Hm : missing_roles (foldl apply_item (map o) (kwargs a b d e f)) =
    filter (fun k => (list_to_map (kwargs a b d e f) : dict) !! k = Some None)
      (missing_roles (map o))).
  { unfold missing_roles. rewrite list_filter_filter.
    apply list_filter_iff. intros k.
    rewrite lookup_foldl_apply_item by exact NoDup_role_names.
    destruct ((list_to_map (kwargs a b d e f) : dict) !! k)
      as [[v|]|] eqn:Hk.
    - split; [discriminate|]. by intros [? _].
    - tauto.
    - apply not_elem_of_list_to_map in Hk. rewrite kwargs_keys in Hk.
      destruct Hwf as (Hdom & _).
      assert (Hnone : map o !! k = None).
      { apply not_elem_of_dom. rewrite Hdom. unfold role_keys.
        by rewrite elem_of_list_to_set. }
      rewrite Hnone. split; [discriminate|]. by intros [? _]. }
  by rewrite Hm.
Qed.

Lemma assign_shrinks_needed_witness :
  example_store !! 0 = Some empty_mapper
  /\ wf_instance empty_mapper
  /\ exists (h' : store) (needed : list string),
       assign 0 None (Some "mjd") None (Some "err") None example_store =
         (Ret 0, h')
       /\ needed =
            filter (fun k => (list_to_map
                      (kwargs None (Some "mjd") None (Some "err") None)
                      : dict) !! k = Some None)
              (missing_roles (map empty_mapper))
       /\ is_ready 0 true h' =
            (Ret (ReadyPair (bool_decide (needed = [])) needed), h').
Proof.
  assert (H1 : example_store !! 0 = Some empty_mapper) by reflexivity.
  assert (H2 : wf_instance empty_mapper) by apply wf_init.
  split; [exact H1|]. split; [exact H2|].
  apply (assign_shrinks_needed example_store 0 empty_mapper
           None (Some "mjd") None (Some "err") None H1 H2).
Defined.

(** ** What no operation undoes *)

Lemma later_state_refl (o : instance) : later_state o o.
Proof. repeat split. intros k v _ Hk. by exists v. Qed.

Lemma later_state_trans (o1 o2 o3 : instance) :
  later_state o1 o2 -> later_state o2 o3 -> later_state o1 o3.
Proof.
  intros (Hc1 & Hr1 & Hk1 & H1) (Hc2 & Hr2 & Hk2 & H2).
  repeat split; [congruence..|].
  intros k v Hk Hv. destruct (H1 k v Hk Hv) as [v' Hv'].
  by apply (H2 k v').
Qed.

Lemma ztf_map_assigned (k : string) :
  k ∈ role_names -> exists v, ztf_map !! k = Some (Some v).
Proof.
  unfold role_names. rewrite !elem_of_cons.
  intros [->|[->|[->|[->|[->|Hk]]]]];
    [by eexists..|by apply elem_of_nil in Hk].
Qed.

Lemma use_known_map_keeps (h : store) (self : ref) (mid : string)
    (l : ref) (o : instance) :
  h !! l = Some o -> (use_known_map self mid h).2 !! l = Some o.
Proof.
  intros Hl. unfold use_known_map, bind, get_obj.
  destruct (h !! self) as [os|]; [|done].
  destruct (known_maps os !! mid) as [c|]; [|done].
  rewrite new_run.
  rewrite (set_known_map_run _ _ (init c None None None None None))
    by apply lookup_insert_eq.
  pose proof (alloc_fresh h) as Hfresh.
  destruct c; cbn [class_of init snd].
  - by apply insert_keeps_old.
  - rewrite insert_insert_eq. by apply insert_keeps_old.
Qed.

Lemma run_op_later (x : op) (h : store) (l : ref) (o : instance) :
  h !! l = Some o ->
  exists o', run_op x h !! l = Some o' /\ later_state o o'.
Proof.
  intros Hl. destruct x as [c a b d e f|self a b d e f|self sn|self mid|self];
    unfold run_op.
  - exists o. split; [|apply later_state_refl].
    rewrite new_run. apply insert_keeps_old; [apply alloc_fresh|done].
  - destruct (h !! self) as [os|] eqn:Hs.
    + rewrite (assign_run h self os a b d e f Hs). cbn [snd].
      destruct (decide (self = l)) as [->|Hne].
      * rewrite lookup_insert_eq. eexists. split; [done|].
        assert (os = o) as -> by congruence.
        repeat split. intros k v Hk Hv. cbn [map with_map].
        rewrite lookup_foldl_apply_item by exact NoDup_role_names.
        destruct (list_to_map _ !! k) as [[v'|]|]; by eexists.
      * exists o. split; [|apply later_state_refl].
        by rewrite lookup_insert_ne.
    + rewrite assign_dangling by done. exists o.
      split; [done|apply later_state_refl].
  - rewrite is_ready_store. exists o. split; [done|apply later_state_refl].
  - exists o. split; [by apply use_known_map_keeps|apply later_state_refl].
  - destruct (h !! self) as [os|] eqn:Hs.
    + rewrite (set_known_map_run h self os Hs).
      destruct (class_of os) eqn:Hc; cbn [snd].
      * exists o. split; [done|apply later_state_refl].
      * destruct (decide (self = l)) as [->|Hne].
        { rewrite lookup_insert_eq. eexists. split; [done|].
          assert (os = o) as -> by congruence.
          repeat split. intros k v Hk _. by apply ztf_map_assigned. }
        exists o. split; [|apply later_state_refl].
        by rewrite lookup_insert_ne.
    + unfold _set_known_map, bind, get_obj. rewrite Hs.
      exists o. split; [done|apply later_state_refl].
Qed.

Lemma run_ops_later (ops : list op) :
  forall (h : store) (l : ref) (o : instance),
    h !! l = Some o ->
    exists o', run_ops ops h !! l = Some o' /\ later_state o o'.
Proof.
  induction ops as [|x rest IH]; intros h l o Hl; cbn [run_ops foldl].
  - exists o. split; [done|apply later_state_refl].
  - destruct (run_op_later x h l o Hl) as (o1 & Hl1 & Hs1).
    destruct (IH _ l o1 Hl1) as (o2 & Hl2 & Hs2).
    exists o2. split; [exact Hl2|]. by apply (later_state_trans o o1 o2).
Qed.

Lemma preset_store_wf : wf_store preset_store.
Proof.
  change preset_store with
    (run_ops [OpNew ColumnMapper None None None None None;
              OpUseKnownMap 0 "ZTF"] ∅).
  apply run_ops_wf, wf_store_empty.
Qed.

(** X7: no sequence of constructor calls and calls of [assign],
    [is_ready], [use_known_map] and [_set_known_map] removes an
    instance, changes its class, or leaves a role without a string that
    held one before. *)
Theorem assigned_roles_stay_assigned
    (ops : list op) (h : store) (l : ref) (o : instance) :
  h !! l = Some o ->
  exists o' : instance,
    run_ops ops h !! l = Some o'
    /\ class_of o' = class_of o
    /\ forall k v, k ∈ role_names -> map o !! k = Some (Some v) ->
         exists v', map o' !! k = Some (Some v').
Proof.
  intros Hl. destruct (run_ops_later ops h l o Hl) as (o' & Hl' & Hc & _ & _ & Hk).
  by exists o'.
Qed.

Lemma assigned_roles_stay_assigned_witness :
  preset_store !! 1 = Some preset_mapper
  /\ exists o' : instance,
       run_ops [OpAssign 1 (Some "objectId") None None None None;
                OpSetKnownMap 0; OpUseKnownMap 1 "LSST"] preset_store !! 1
         = Some o'
       /\ class_of o' = class_of preset_mapper
       /\ forall k v, k ∈ role_names ->
            map preset_mapper !! k = Some (Some v) ->
            exists v', map o' !! k = Some (Some v').
Proof.
  assert (H1 : preset_store !! 1 = Some preset_mapper) by reflexivity.
  split; [exact H1|].
  apply (assigned_roles_stay_assigned _ preset_store 1 preset_mapper H1).
Defined.

(** X8: a mapper on which [is_ready()] is [True] stays ready through
    every sequence of those operations, on it or on other mappers. *)
Theorem ready_stays_ready
    (ops : list op) (h : store) (l : ref) (o : instance) :
  wf_store h -> h !! l = Some o ->
  is_ready l false h = (Ret (ReadyBool true), h) ->
  is_ready l false (run_ops ops h) = (Ret (ReadyBool true), run_ops ops h).
Proof.
  intros Hwf Hl Hready.
  rewrite (is_ready_wf h l o false Hl (Hwf l o Hl)) in Hready.
  assert (Hnil : missing_roles (map o) = []).
  { injection Hready as Hb. by apply bool_decide_eq_true_1 in Hb. }
  destruct (run_ops_later ops h l o Hl) as (o' & Hl' & _ & _ & _ & Hk).
  pose proof (run_ops_wf ops h Hwf l o' Hl') as Hwf'.
  rewrite (is_ready_wf _ l o' false Hl' Hwf'). do 3 f_equal.
  apply bool_decide_eq_true_2, elem_of_nil_inv. intros k.
  unfold missing_roles. rewrite list_elem_of_filter. intros [Hnone Hrole].
  destruct (wf_role_present o k (Hwf l o Hl) Hrole) as [[v|] Hv].
  - destruct (Hk k v Hrole Hv) as [v' Hv']. congruence.
  - assert (Hin : k ∈ missing_roles (map o)).
    { unfold missing_roles. by apply list_elem_of_filter. }
    rewrite Hnil in Hin. by apply elem_of_nil in Hin.
Qed.

Lemma ready_stays_ready_witness :
  wf_store preset_store
  /\ preset_store !! 1 = Some preset_mapper
  /\ is_ready 1 false preset_store = (Ret (ReadyBool true), preset_store)
  /\ is_ready 1 false
       (run_ops [OpAssign 1 (Some "objectId") None None None None;
                 OpUseKnownMap 1 "LSST"] preset_store) =
       (Ret (ReadyBool true),
        run_ops [OpAssign 1 (Some "objectId") None None None None;
                 OpUseKnownMap 1 "LSST"] preset_store).
Proof.
  assert (H1 : wf_store preset_store) by exact preset_store_wf.
  assert (H2 : preset_store !! 1 = Some preset_mapper) by reflexivity.
  assert (H3 : is_ready 1 false preset_store =
                 (Ret (ReadyBool true), preset_store)) by reflexivity.
  split; [exact H1|]. split; [exact H2|]. split; [exact H3|].
  apply (ready_stays_ready _ preset_store 1 preset_mapper H1 H2 H3).
Defined.

(** ** Exceptions on stores built by the operations *)

(** X9: in a store built from the empty one by the operations, calls on
    an existing mapper raise only what the code raises on purpose:
    [is_ready] returns with either flag and never raises [KeyError];
    [use_known_map] returns a mapper or raises the unknown-mapping
    [ValueError], never the [NotImplementedError] of the base hook; and
    [_set_known_map] raises [NotImplementedError] exactly on instances
    of the base class. *)
Theorem reachable_calls_raise_only_by_design
    (ops : list op) (l : ref) (o : instance) :
  run_ops ops ∅ !! l = Some o ->
  (forall show_needed, exists r,
     is_ready l show_needed (run_ops ops ∅) = (Ret r, run_ops ops ∅))
  /\ (forall mid,
        (exists l' h', use_known_map l mid (run_ops ops ∅) = (Ret l', h'))
        \/ use_known_map l mid (run_ops ops ∅) =
             (Raise (ValueError (unknown_mapping_msg mid)), run_ops ops ∅))
  /\ ((_set_known_map l (run_ops ops ∅)).1 = Raise NotImplementedError <->
      class_of o = ColumnMapper).
Proof.
  intros Hl.
  pose proof (run_ops_wf ops ∅ wf_store_empty l o Hl) as Hwf.
  split; [|split].
  - intros b. eexists. apply (is_ready_wf _ l o b Hl Hwf).
  - intros mid. destruct Hwf as (_ & _ & Hkm).
    pose proof (default_known_maps_lookup mid) as Hlk. rewrite <- Hkm in Hlk.
    case_decide.
    + left. eexists _, _. apply (use_known_map_found _ l o mid Hl Hlk).
    + right. apply (use_known_map_not_found _ l o mid Hl Hlk).
  - rewrite (set_known_map_run _ l o Hl). by destruct (class_of o).
Qed.

Lemma reachable_calls_raise_only_by_design_witness :
  run_ops [OpNew ColumnMapper None None None None None;
           OpUseKnownMap 0 "ZTF"] ∅ !! 1 = Some preset_mapper
  /\ forall show_needed, exists r,
       is_ready 1 show_needed
         (run_ops [OpNew ColumnMapper None None None None None;
                   OpUseKnownMap 0 "ZTF"] ∅) =
         (Ret r, run_ops [OpNew ColumnMapper None None None None None;
                          OpUseKnownMap 0 "ZTF"] ∅).
Proof.
  assert (H1 : run_ops [OpNew ColumnMapper None None None None None;
                        OpUseKnownMap 0 "ZTF"] ∅ !! 1 = Some preset_mapper)
    by reflexivity.
  split; [exact H1|].
  apply (reachable_calls_raise_only_by_design _ 1 preset_mapper H1).
Defined.

(** ** The preset hook *)

(** X10: on an instance of the ZTF class [_set_known_map] returns that
    instance with its dict replaced by the ZTF table, whatever the dict
    held: values assigned before the call are discarded, and a second
    call changes nothing more. *)
Theorem set_known_map_discards_assignments
    (h : store) (self : ref) (o : instance) (a b d e f : value) :
  h !! self = Some o -> class_of o = ZTFColumnMapper ->
  _set_known_map self h = (Ret self, <[self := with_map o ztf_map]> h)
  /\ (assign self a b d e f;; _set_known_map self) h = _set_known_map self h
  /\ (_set_known_map self;; _set_known_map self) h = _set_known_map self h.
Proof.
  intros Hl Hc.
  assert (Hrun : _set_known_map self h =
                   (Ret self, <[self := with_map o ztf_map]> h)).
  { rewrite (set_known_map_run h self o Hl). by rewrite Hc. }
  split; [exact Hrun|]. rewrite Hrun. split.
  - unfold bind. rewrite (assign_run h self o a b d e f Hl).
    rewrite (set_known_map_run _ self _ (lookup_insert_eq _ _ _)).
    cbn [class_of with_map required known_maps]. rewrite Hc.
    by rewrite insert_insert_eq.
  - unfold bind. rewrite Hrun.
    rewrite (set_known_map_run _ self _ (lookup_insert_eq _ _ _)).
    cbn [class_of with_map required known_maps]. rewrite Hc.
    by rewrite insert_insert_eq.
Qed.

Lemma set_known_map_discards_assignments_witness :
  preset_store !! 1 = Some preset_mapper
  /\ class_of preset_mapper = ZTFColumnMapper
  /\ (assign 1 (Some "objectId") None None None None;;
      _set_known_map 1) preset_store = _set_known_map 1 preset_store.
Proof.
  assert (H1 : preset_store !! 1 = Some preset_mapper) by reflexivity.
  assert (H2 : class_of preset_mapper = ZTFColumnMapper) by reflexivity.
  split; [exact H1|]. split; [exact H2|].
  apply (set_known_map_discards_assignments preset_store 1 preset_mapper
           (Some "objectId") None None None None H1 H2).
Defined.

(** X11: what [use_known_map] does depends on the identifier and not on
    the mapper it is called on: on two mappers with the registry that
    [__init__] wrote, whatever their class and their assigned roles, it
    returns the same result and leaves the same store. *)
Theorem use_known_map_ignores_receiver
    (h : store) (l1 l2 : ref) (o1 o2 : instance) (mid : string) :
  h !! l1 = Some o1 -> h !! l2 = Some o2 ->
  wf_instance o1 -> wf_instance o2 ->
  use_known_map l1 mid h = use_known_map l2 mid h.
Proof.
  intros Hl1 Hl2 (_ & _ & Hk1) (_ & _ & Hk2).
  pose proof (default_known_maps_lookup mid) as Hlk.
  case_decide.
  - rewrite (use_known_map_found h l1 o1 mid Hl1) by by rewrite Hk1.
    by rewrite (use_known_map_found h l2 o2 mid Hl2) by by rewrite Hk2.
  - rewrite (use_known_map_not_found h l1 o1 mid Hl1) by by rewrite Hk1.
    by rewrite (use_known_map_not_found h l2 o2 mid Hl2) by by rewrite Hk2.
Qed.

Lemma use_known_map_ignores_receiver_witness :
  preset_store !! 0 = Some empty_mapper
  /\ preset_store !! 1 = Some preset_mapper
  /\ wf_instance empty_mapper
  /\ wf_instance preset_mapper
  /\ use_known_map 0 "ZTF" preset_store = use_known_map 1 "ZTF" preset_store.
Proof.
  assert (H1 : preset_store !! 0 = Some empty_mapper) by reflexivity.
  assert (H2 : preset_store !! 1 = Some preset_mapper) by reflexivity.
  assert (H3 : wf_instance empty_mapper) by apply wf_init.
  assert (H4 : wf_instance preset_mapper).
  { apply wf_with_map; [apply wf_init|apply dom_ztf_map]. }
  split; [exact H1|]. split; [exact H2|]. split; [exact H3|].
  split; [exact H4|].
  apply (use_known_map_ignores_receiver preset_store 0 1 empty_mapper
           preset_mapper "ZTF" H1 H2 H3 H4).
Defined.
